(** * RapidoDB: the RQL driver, the stored item and its expiry

    A shallow embedding of the query pipeline of RapidoDB:
    - [src/db/item.go]: [Item], [newItem], [isExpired];
    - [src/rql/driver.go]: the current [Driver] ([Operate], [set], [get],
      [auth], [res], [errRes], [convertToDuration], [stringify]);
    - [src/unnamed/part_001]: the earlier driver of the same package
      (interface [DB], no [Auth]), kept in module [rql_v0];
    - the lexer, the parser, the store and the session, whose files are not
      part of the sources at hand, modelled from the specification.

    Go's [uint] and [int64] are integers of [Z] with the wrap-around written
    out ([uint] has 64 bits, as on the usual platforms); a clock reading is
    the number of nanoseconds since the epoch; an [io.Writer] is the
    sequence of the byte strings written to it. *)

From Stdlib Require Import ZArith Ascii String List Lia Bool.
From stdpp Require Import base gmap strings list.

Local Open Scope Z_scope.

(* ===================================================================== *)
(** ** Machine integers and time *)
(* ===================================================================== *)

Module GoInt.

(** [uint] on a 64-bit platform: arithmetic is modulo 2^64. *)
Definition wrap_uint (z : Z) : Z := z mod 2 ^ 64.

(** [int64]: two's complement, range -2^63 .. 2^63 - 1. *)
Definition wrap_int64 (z : Z) : Z := (z + 2 ^ 63) mod 2 ^ 64 - 2 ^ 63.

(** The conversion [int64(u)] of a [uint] keeps the bit pattern. *)
Definition int64_of_uint (u : Z) : Z := wrap_int64 u.

End GoInt.

Module GoTime.

(** [time.Duration] is an [int64] count of nanoseconds. *)
Definition Duration : Type := Z.

Definition Nanosecond : Duration := 1.
Definition Microsecond : Duration := 1000 * Nanosecond.
Definition Millisecond : Duration := 1000 * Microsecond.
Definition Second : Duration := 1000 * Millisecond.

(** A reading of [time.Now()]: nanoseconds elapsed since the Unix epoch. *)
Definition Time : Type := Z.

Definition Add (t : Time) (d : Duration) : Time := t + d.

(** [t.Unix()]: whole seconds since the epoch. *)
Definition Unix (t : Time) : Z := t / 10 ^ 9.

(** [t.UnixNano()]: nanoseconds since the epoch, as an [int64]. *)
Definition UnixNano (t : Time) : Z := GoInt.wrap_int64 t.

End GoTime.

(* ===================================================================== *)
(** ** Dynamic values *)
(* ===================================================================== *)

(** What the engine needs of the values held in an [interface{}]: how
    [%v] prints one, and how a string is boxed. *)
Class GoValue (V : Type) := {
  fmtV : V -> string;
  boxString : string -> V;
}.

(** An [interface{}]: [None] is the nil interface. *)
Definition any (V : Type) : Type := option V.

Definition nil_any {V : Type} : any V := None.

(** Strings as the only payload: [%v] prints a string verbatim. *)
#[export] Instance string_GoValue : GoValue string :=
  {| fmtV := fun s => s; boxString := fun s => s |}.

(* ===================================================================== *)
(** ** src/db/item.go *)
(* ===================================================================== *)

Module db.
Import GoTime.

Section Item.
(** The sentinel [NeverExpire] is declared in a file of the package that
    is not at hand; it is an untyped integer constant, used both as an
    [int64] and as a [time.Duration]. *)
Variable NeverExpire : Z.
Context {V : Type}.

Record Item : Type := mkItem {
  expireAt : Z;
  data : any V;
}.

(** [newItem]; [now] is the reading of [time.Now()] inside the call. *)
Definition newItem (data : any V) (expireIn : Duration) (now : Time) : Item :=
  let expiry :=
    if negb (expireIn =? NeverExpire)
    then UnixNano (Add now expireIn)
    else NeverExpire in
  {| expireAt := expiry; data := data |}.

(** [isExpired]; [now] is the reading of [time.Now()] inside the call. *)
Definition isExpired (item : Item) (now : Time) : bool :=
  if expireAt item =? NeverExpire then false
  else expireAt item <? Unix now.

End Item.

Arguments Item V : clear implicits.
Arguments mkItem {V} _ _.

End db.

(* ===================================================================== *)
(** ** The store *)
(* ===================================================================== *)

Module store.
Import GoTime.

Section Store.
Variable NeverExpire : Z.
Context {V : Type}.

(** Modelled from the spec: the type [Store] of the storage layer, whose
    file is missing; a mapping from string key to [Item] with a
    configured default expiry. *)
Record Store : Type := mkStore {
  items : gmap string (db.Item V);
  DefaultExpiry : Duration;
}.

(** Modelled from the spec: the constructor [New] of the missing store
    file; an empty store with the given default expiry. *)
Definition New (defaultExpiry : Duration) : Store :=
  {| items := ∅; DefaultExpiry := defaultExpiry |}.

(** Modelled from the spec: the method [Set] of the missing store file;
    inserts or replaces the item for [key], the item being built by
    [newItem] at the moment of the call. *)
Definition Set_ (key : string) (data : any V) (expireIn : Duration)
    (now : Time) (s : Store) : Store :=
  {| items := <[key := db.newItem NeverExpire data expireIn now]> (items s);
     DefaultExpiry := DefaultExpiry s |}.

(** Modelled from the spec: the method [Get] of the missing store file;
    the live value and [true] if [key] maps to an item that is not
    expired, [found = false] otherwise. *)
Definition Get (key : string) (now : Time) (s : Store) : any V * bool :=
  match items s !! key with
  | Some item =>
      if db.isExpired NeverExpire item now then (nil_any, false)
      else (db.data item, true)
  | None => (nil_any, false)
  end.

(** Modelled from the spec: the method [Delete] of the missing store
    file; removes the mapping for [key], a no-op on an absent key. *)
Definition Delete (key : string) (s : Store) : Store :=
  {| items := delete key (items s); DefaultExpiry := DefaultExpiry s |}.

End Store.

Arguments Store V : clear implicits.

End store.

(* ===================================================================== *)
(** ** The translation layer: statements and driver *)
(* ===================================================================== *)

Module rql.
Import GoTime.

(** The statement records. Their declarations are in a file that is not at
    hand; the fields are those that the parser test and the driver use. An
    absent expiry is the zero value of [exp], a [uint]. *)
Record SetStatement : Type := mkSet {
  key : string;
  val : string;
  exp : Z;
}.

Record GetStatement : Type := mkGet {
  keys : list string;
}.

(** The field is [keys] in the source; it has another name here because the
    records of a module share one name space. *)
Record DeleteStatement : Type := mkDelete {
  del_keys : list string;
}.

Record AuthStatement : Type := mkAuth {
  username : string;
  password : string;
}.

Inductive StatementType : Type := SetType | GetType | DeleteType | AuthType.

(** Modelled from the spec: the declaration of [Statement], which is in a
    file that is not at hand; a tagged variant. In the parser test a
    statement is a tag with the one record that the tag names: each
    constructor stands for a tag and its populated field, and [Typ] reads
    the tag. *)
Inductive Statement : Type :=
| StmtSet (s : SetStatement)
| StmtGet (g : GetStatement)
| StmtDelete (d : DeleteStatement)
| StmtAuth (a : AuthStatement).

Definition Typ (stmt : Statement) : StatementType :=
  match stmt with
  | StmtSet _ => SetType
  | StmtGet _ => GetType
  | StmtDelete _ => DeleteType
  | StmtAuth _ => AuthType
  end.

Record Ast : Type := mkAst {
  Statements : list Statement;
}.

(** Modelled from the spec: the two errors of the translation layer, whose
    declarations are not at hand; [Error] is the method of Go's [error]
    interface. *)
Inductive error : Type :=
| LexError (msg : string)
| ParseError (msg : string).

Definition Error (e : error) : string :=
  match e with
  | LexError msg => msg
  | ParseError msg => msg
  end.

(** *** src/rql/driver.go *)

(** An [io.Writer], as the byte strings written to it, first first. *)
Definition Writer : Type := list string.

Definition Write (bytes : string) (w : Writer) : Writer := w ++ [bytes].

Definition newline : string := String "010"%char EmptyString.

(** The interface [SecureDB]. A database is a state of type [S]; a method
    takes the state and returns the new one next to its results. *)
Class SecureDB (V S : Type) := {
  Set_ : string -> any V -> Duration -> S -> S;
  Get : string -> S -> any V * bool * S;
  Authenticate : string -> string -> S -> bool * S;
}.

(** [time.Duration(t * 1000)]: the product is a [uint], the conversion
    reads its bits as an [int64]. *)
Definition convertToDuration (t : Z) : Duration :=
  GoInt.int64_of_uint (GoInt.wrap_uint (t * 1000)).

Definition res (msg : string) (w : Writer) : Writer :=
  Write (msg +:+ newline) w.

Definition errRes (msg : string) (w : Writer) : Writer :=
  Write ("ERROR: " +:+ msg +:+ newline) w.

Section Driver.
Context {V S : Type} `{!GoValue V} `{!SecureDB V S}.

(** The function [Parse] belongs to a file that is not at hand: the driver
    is given over any parser of that type. *)
Variable Parse : string -> option Ast * option error.

(** [%v] of one element of a slice of [interface{}]. *)
Definition fmt_any (x : any V) : string :=
  match x with
  | Some v => fmtV v
  | None => "<nil>"
  end.

(** [fmt.Sprintf("%v", res)] for the slice [res] that [get] passes: the
    elements between brackets, separated by one space. *)
Definition stringify (res : list (any V)) : string :=
  "[" +:+ String.concat " " (map fmt_any res) +:+ "]".

Definition set (stmt : SetStatement) (d : S) : string * S :=
  let d := Set_ (key stmt) (Some (boxString (val stmt)))
                (convertToDuration (exp stmt)) d in
  ("Success", d).

(** One turn of the loop of [get]: the slice so far and the database. *)
Definition get_step (acc : list (any V) * S) (key : string) : list (any V) * S :=
  let '(res, d) := acc in
  let '(val, ok, d) := Get key d in
  if ok then (res ++ [val], d) else (res ++ [nil_any], d).

(** The slice [res] at the end of the loop of [get]. *)
Definition get_response (ks : list string) (d : S) : list (any V) * S :=
  fold_left get_step ks ([], d).

Definition get (stmt : GetStatement) (d : S) : string * S :=
  let '(res, d) := get_response (keys stmt) d in
  (stringify res, d).

Definition auth (stmt : AuthStatement) (d : S) : string * S :=
  let '(ok, d) := Authenticate (username stmt) (password stmt) d in
  if ok then ("Successfully authenticated", d)
  else ("Invalid Credentials", d).

(** The body of the loop of [Operate]: the switch on the tag has the cases
    [SetType], [GetType] and [AuthType], and no default. *)
Definition exec (st : S * Writer) (stmt : Statement) : S * Writer :=
  let '(d, w) := st in
  match stmt with
  | StmtSet s => let '(msg, d) := set s d in (d, res msg w)
  | StmtGet g => let '(msg, d) := get g d in (d, res msg w)
  | StmtAuth a => let '(msg, d) := auth a d in (d, res msg w)
  | StmtDelete _ => (d, w)
  end.

Definition Operate (src : string) (d : S) (w : Writer) : S * Writer :=
  match Parse src with
  | (_, Some err) => (d, errRes (Error err) w)
  | (None, None) => (d, w)
  | (Some ast, None) => fold_left exec (Statements ast) (d, w)
  end.

(** *** What the statements about the driver speak of *)

(** The slot that the outcome of one lookup fills: the value when the key
    is found, the nil interface when it is not. *)
Definition slot_of (r : any V * bool * S) : any V :=
  let '(val, ok, _) := r in if ok then val else nil_any.


(** Every key of [ks], looked up in turn, is found. *)
Fixpoint all_found (ks : list string) (d : S) : bool :=
  match ks with
  | [] => true
  | k :: ks' => let '(_, ok, d') := Get k d in ok && all_found ks' d'
  end.

(** The statements that have a case in the switch of [Operate]. *)
Definition has_case (stmt : Statement) : bool :=
  match Typ stmt with
  | SetType | GetType | AuthType => true
  | DeleteType => false
  end.

(** The outcomes of the lookups of the keys [ks], made in turn: the value
    and the flag that [Get] returns for each key. *)
Fixpoint lookups (ks : list string) (d : S) : list (any V * bool) :=
  match ks with
  | [] => []
  | k :: ks' => let '(val, ok, d') := Get k d in (val, ok) :: lookups ks' d'
  end.

End Driver.

(** *** A recording database *)

(** The calls that a driver makes on its database. *)
Inductive Call (V : Type) : Type :=
| CallSet (key : string) (data : any V) (expireIn : Duration)
| CallGet (key : string)
| CallAuthenticate (username password : string).

Arguments CallSet {V} key data expireIn.
Arguments CallGet {V} key.
Arguments CallAuthenticate {V} username password.

(** Any database, with the list of the calls made on it, first first. *)
#[export] Instance recording (V S : Type) `{!SecureDB V S} : SecureDB V (S * list (Call V)) := {|
  Set_ := fun key data expireIn '(d, log) =>
    (Set_ key data expireIn d, log ++ [CallSet key data expireIn]);
  Get := fun key '(d, log) =>
    let '(val, ok, d) := Get key d in (val, ok, (d, log ++ [CallGet key]));
  Authenticate := fun u p '(d, log) =>
    let '(ok, d) := Authenticate u p d in (ok, (d, log ++ [CallAuthenticate u p]));
|}.

(** The calls that a statement stands for: one [Set] for a SET, one [Get]
    per key for a GET, one [Authenticate] for an AUTH, none for a DEL. *)
Definition calls_of {V : Type} `{!GoValue V} (stmt : Statement) : list (Call V) :=
  match stmt with
  | StmtSet s =>
      [CallSet (key s) (Some (boxString (val s))) (convertToDuration (exp s))]
  | StmtGet g => map CallGet (keys g)
  | StmtAuth a => [CallAuthenticate (username a) (password a)]
  | StmtDelete _ => []
  end.

End rql.

(* ===================================================================== *)
(** ** The earlier driver of the package (src/unnamed/part_001) *)
(* ===================================================================== *)

Module rql_v0.
Import GoTime rql.

(** The interface [DB] of the earlier driver. *)
Class DB (V S : Type) := {
  Set_ : string -> any V -> Duration -> S -> S;
  Get : string -> S -> any V * bool * S;
}.

(** A [SecureDB] has the two methods of a [DB]. *)
#[export] Instance DB_of_SecureDB (V S : Type) `{!SecureDB V S} : DB V S := {|
  Set_ := rql.Set_;
  Get := rql.Get;
|}.

Definition convertToDuration (t : Z) : Duration :=
  GoInt.int64_of_uint (GoInt.wrap_uint (t * 1000)).

Definition res (msg : string) (w : Writer) : Writer := Write msg w.

Definition errRes (msg : string) (w : Writer) : Writer := Write msg w.

Section Driver.
Context {V S : Type} `{!GoValue V} `{!DB V S}.
Variable Parse : string -> option Ast * option error.

Definition stringify (res : list (any V)) : string :=
  "[" +:+ String.concat " " (map rql.fmt_any res) +:+ "]".

Definition set (stmt : SetStatement) (d : S) : string * S :=
  let d := Set_ (key stmt) (Some (boxString (val stmt)))
                (convertToDuration (exp stmt)) d in
  ("Success", d).

(** One turn of the loop of [get]: a key that is not found adds nothing. *)
Definition get_step (acc : list (any V) * S) (key : string) : list (any V) * S :=
  let '(res, d) := acc in
  let '(val, ok, d) := Get key d in
  if ok then (res ++ [val], d) else (res, d).

Definition get_response (ks : list string) (d : S) : list (any V) * S :=
  fold_left get_step ks ([], d).

Definition get (stmt : GetStatement) (d : S) : string * S :=
  let '(res, d) := get_response (keys stmt) d in
  (stringify res, d).

(** The switch of this version has the cases [SetType] and [GetType]. *)
Definition exec (st : S * Writer) (stmt : Statement) : S * Writer :=
  let '(d, w) := st in
  match stmt with
  | StmtSet s => let '(msg, d) := set s d in (d, res msg w)
  | StmtGet g => let '(msg, d) := get g d in (d, res msg w)
  | StmtDelete _ | StmtAuth _ => (d, w)
  end.

(** This version does not test the AST pointer: a nil AST with a nil error
    is a nil dereference, which [None] stands for. *)
Definition Operate (src : string) (d : S) (w : Writer) : option (S * Writer) :=
  match Parse src with
  | (_, Some err) => Some (d, errRes (Error err) w)
  | (None, None) => None
  | (Some ast, None) => Some (fold_left exec (Statements ast) (d, w))
  end.

End Driver.

End rql_v0.

(* ===================================================================== *)
(** ** The lexer and the parser *)
(* ===================================================================== *)

Module rql_parser.
Import rql.

(** The outcome of a lexer or parser step: a value or an [error]. *)
Inductive Result (A : Type) : Type :=
| Ok (a : A)
| Err (e : error).

Arguments Ok {A} a.
Arguments Err {A} e.

Definition result_map {A B : Type} (f : A -> B) (r : Result A) : Result B :=
  match r with
  | Ok a => Ok (f a)
  | Err e => Err e
  end.

Definition result_bind {A B : Type} (r : Result A) (f : A -> Result B) : Result B :=
  match r with
  | Ok a => f a
  | Err e => Err e
  end.

(** *** Lexer *)

(** Modelled from the spec: the kinds of token of the missing lexer. *)
Inductive TokenKind : Type :=
| KeywordKind | IdentifierKind | StringKind | NumberKind | TerminatorKind | EOFKind.

(** Modelled from the spec: the token of the missing lexer; a kind, the
    literal text and the offset in the source. *)
Record Token : Type := mkToken {
  kind : TokenKind;
  literal : string;
  pos : nat;
}.

Definition quote_char : ascii := "034"%char.
Definition semicolon_char : ascii := ";"%char.

(** Modelled from the spec: the white space of the missing lexer; the
    blank, the tab, the line feed, the vertical tab, the form feed and the
    carriage return. *)
Definition is_space (c : ascii) : bool :=
  (c =? " ")%char || (c =? "009")%char || (c =? "010")%char ||
  (c =? "011")%char || (c =? "012")%char || (c =? "013")%char.

Definition is_digit (c : ascii) : bool :=
  let n := nat_of_ascii c in (48 <=? n)%nat && (n <=? 57)%nat.

(** Modelled from the spec: the keywords of the missing lexer, matched
    with their case. *)
Definition is_keyword (w : string) : bool :=
  (w =? "SET")%string || (w =? "GET")%string ||
  (w =? "DEL")%string || (w =? "AUTH")%string.

Definition all_digits (w : string) : bool :=
  forallb is_digit (list_ascii_of_string w).

(** Modelled from the spec: the classification of a bare word by the missing
    lexer; one of the four upper-case keywords, a run of decimal digits, or
    an identifier. *)
Definition word_token (start : nat) (rev_chars : list ascii) : Token :=
  let w := string_of_list_ascii (rev rev_chars) in
  let k := if is_keyword w then KeywordKind
           else if all_digits w then NumberKind
           else IdentifierKind in
  {| kind := k; literal := w; pos := start |}.

(** Modelled from the spec: the token of a quoted literal of the missing
    lexer; its text is what stands between the quotes. *)
Definition string_token (start : nat) (rev_chars : list ascii) : Token :=
  {| kind := StringKind; literal := string_of_list_ascii (rev rev_chars);
     pos := start |}.

Definition terminator_token (p : nat) : Token :=
  {| kind := TerminatorKind; literal := ";"; pos := p |}.

Definition eof_token (p : nat) : Token :=
  {| kind := EOFKind; literal := ""; pos := p |}.

(** Where the lexer stands: between tokens, inside a bare word, or inside a
    quoted literal; the last two carry the start offset and the characters
    read so far, last first. *)
Inductive LexMode : Type :=
| Idle
| InWord (start : nat) (rev_chars : list ascii)
| InQuote (start : nat) (rev_chars : list ascii).

(** Modelled from the spec: the scanning loop of the missing lexer. White
    space separates tokens; a double quote opens a literal that runs to the
    next double quote; [;] is the terminator; any other run of characters
    is a bare word; the sequence ends with the end-of-input token; the only
    failure is a literal left open. *)
Fixpoint lex_from (cs : list ascii) (p : nat) (mode : LexMode) : Result (list Token) :=
  match cs with
  | [] =>
      match mode with
      | Idle => Ok [eof_token p]
      | InWord st w => Ok [word_token st w; eof_token p]
      | InQuote st _ => Err (LexError "unterminated string literal")
      end
  | c :: cs' =>
      match mode with
      | InQuote st w =>
          if (c =? quote_char)%char
          then result_map (cons (string_token st w)) (lex_from cs' (S p) Idle)
          else lex_from cs' (S p) (InQuote st (c :: w))
      | InWord st w =>
          if is_space c
          then result_map (cons (word_token st w)) (lex_from cs' (S p) Idle)
          else if (c =? semicolon_char)%char
          then result_map (fun ts => word_token st w :: terminator_token p :: ts)
                          (lex_from cs' (S p) Idle)
          else if (c =? quote_char)%char
          then result_map (cons (word_token st w)) (lex_from cs' (S p) (InQuote p []))
          else lex_from cs' (S p) (InWord st (c :: w))
      | Idle =>
          if is_space c then lex_from cs' (S p) Idle
          else if (c =? semicolon_char)%char
          then result_map (cons (terminator_token p)) (lex_from cs' (S p) Idle)
          else if (c =? quote_char)%char then lex_from cs' (S p) (InQuote p [])
          else lex_from cs' (S p) (InWord p [c])
      end
  end.

(** Modelled from the spec: the entry point of the missing lexer. *)
Definition Lex (src : string) : Result (list Token) :=
  lex_from (list_ascii_of_string src) 0%nat Idle.

(** *** Parser *)

Definition digit_value (c : ascii) : Z := Z.of_nat (nat_of_ascii c) - 48.

Definition decimal_value (w : string) : Z :=
  fold_left (fun acc c => 10 * acc + digit_value c) (list_ascii_of_string w) 0.

Definition max_uint : Z := 2 ^ 64 - 1.

Definition is_ident (t : Token) : bool :=
  match kind t with
  | IdentifierKind => true
  | _ => false
  end.

(** Modelled from the spec: the rule [value := STRING | IDENT | NUMBER] of
    the missing parser. *)
Definition is_value (t : Token) : bool :=
  match kind t with
  | StringKind | IdentifierKind | NumberKind => true
  | _ => false
  end.

Definition is_number (t : Token) : bool :=
  match kind t with
  | NumberKind => true
  | _ => false
  end.

(** Modelled from the spec: the error of the missing parser names the
    offending token and what was expected. *)
Definition unexpected (t : Token) (expected : string) : error :=
  ParseError ("unexpected token '" +:+ literal t +:+ "', expected " +:+ expected).

(** Modelled from the spec: how the missing parser cuts the token sequence
    into statements; a terminator closes a segment and the end-of-input
    token closes the last one. The result is never empty. *)
Fixpoint split_statements (ts : list Token) : list (list Token) :=
  match ts with
  | [] => [[]]
  | t :: ts' =>
      match kind t with
      | EOFKind => [[]]
      | TerminatorKind => [] :: split_statements ts'
      | _ =>
          match split_statements ts' with
          | seg :: segs => (t :: seg) :: segs
          | [] => [[t]]
          end
      end
  end.

(** Modelled from the spec: in the missing parser the terminator is
    optional on the final statement; a last segment that is empty stands for
    no statement. *)
Definition drop_trailing_empty (segs : list (list Token)) : list (list Token) :=
  match rev segs with
  | [] :: front => rev front
  | _ => segs
  end.

(** Modelled from the spec: the rule [IDENT+] of GET and DEL in the missing
    parser; at least one key. *)
Definition parse_keys (kw : Token) (rest : list Token) : Result (list string) :=
  match rest with
  | [] => Err (unexpected kw "at least one key")
  | _ =>
      match List.find (fun t => negb (is_ident t)) rest with
      | Some t => Err (unexpected t "a key")
      | None => Ok (map literal rest)
      end
  end.

(** Modelled from the spec: the optional expiry of SET in the missing
    parser, a number token read in base ten; the field it fills is a
    [uint], and a number that does not fit is refused. *)
Definition parse_expiry (n : Token) : Result Z :=
  if is_number n
  then if decimal_value (literal n) <=? max_uint
       then Ok (decimal_value (literal n))
       else Err (unexpected n "an expiry that fits an unsigned integer")
  else Err (unexpected n "a number or the end of the statement").

(** Modelled from the spec: one statement of the grammar of the missing
    parser,
    [SET IDENT value [NUMBER] | GET IDENT+ | DEL IDENT+ | AUTH IDENT value];
    the literal text of a value is kept verbatim. *)
Definition parse_statement (seg : list Token) : Result Statement :=
  match seg with
  | [] => Err (ParseError "unexpected end of statement, expected SET, GET, DEL or AUTH")
  | kw :: rest =>
      match kind kw with
      | KeywordKind =>
          if (literal kw =? "SET")%string then
            match rest with
            | k :: v :: more =>
                if negb (is_ident k) then Err (unexpected k "a key")
                else if negb (is_value v) then Err (unexpected v "a value")
                else
                  match more with
                  | [] => Ok (StmtSet {| key := literal k; val := literal v; exp := 0 |})
                  | [n] =>
                      result_map
                        (fun e => StmtSet {| key := literal k; val := literal v; exp := e |})
                        (parse_expiry n)
                  | _ :: extra :: _ => Err (unexpected extra "the end of the statement")
                  end
            | _ => Err (unexpected kw "a key and a value")
            end
          else if (literal kw =? "GET")%string then
            result_map (fun ks => StmtGet {| keys := ks |}) (parse_keys kw rest)
          else if (literal kw =? "DEL")%string then
            result_map (fun ks => StmtDelete {| del_keys := ks |}) (parse_keys kw rest)
          else
            match rest with
            | [u; p] =>
                if negb (is_ident u) then Err (unexpected u "a username")
                else if negb (is_value p) then Err (unexpected p "a password")
                else Ok (StmtAuth {| username := literal u; password := literal p |})
            | _ => Err (unexpected kw "a username and a password")
            end
      | _ => Err (unexpected kw "SET, GET, DEL or AUTH")
      end
  end.

(** Modelled from the spec: the statements of the missing parser, in source
    order; the first error ends the parse and no AST is returned. *)
Fixpoint parse_all (segs : list (list Token)) : Result (list Statement) :=
  match segs with
  | [] => Ok []
  | seg :: segs' =>
      result_bind (parse_statement seg) (fun stmt =>
      result_map (cons stmt) (parse_all segs'))
  end.

(** Modelled from the spec: the statement sequence of the missing parser,
    [program := statement (';' statement)* ';'?], and the empty sequence
    for a source without tokens. *)
Definition parse_program (ts : list Token) : Result (list Statement) :=
  parse_all (drop_trailing_empty (split_statements ts)).

(** Modelled from the spec: the function [Parse] of the missing parser. It
    returns Go's pair of an AST pointer and an error, of which exactly one
    is non-nil. *)
Definition Parse (src : string) : option Ast * option error :=
  match result_bind (Lex src) parse_program with
  | Ok stmts => (Some {| Statements := stmts |}, None)
  | Err e => (None, Some e)
  end.

End rql_parser.

(* ===================================================================== *)
(** ** The security layer *)
(* ===================================================================== *)

Module security.
Import GoTime.

(** Modelled from the spec: the access levels of the missing security
    layer; [AdminAccess] is the only one. *)
Inductive AccessLevel : Type := AdminAccess.

(** Modelled from the spec: the registered user of the missing security
    layer. *)
Record RegisteredUser : Type := mkUser {
  Username : string;
  Password : string;
  Access : AccessLevel;
}.

(** Modelled from the spec: the constructor [NewRegisteredUser] of the
    missing security layer, as [db.New] calls it. *)
Definition NewRegisteredUser (username password : string) (access : AccessLevel)
    : RegisteredUser :=
  {| Username := username; Password := password; Access := access |}.

Section Session.
Variable NeverExpire : Z.
Context {V : Type}.

(** Modelled from the spec: the session of the missing security layer; the
    data store, the store of the registered users, the authenticated flag
    and the identity of the authenticated user. *)
Record Session : Type := mkSession {
  db : store.Store V;
  udb : store.Store RegisteredUser;
  authenticated : bool;
  activeUser : option RegisteredUser;
}.

(** Modelled from the spec: the constructor [New] of the missing security
    layer; a session starts unauthenticated. *)
Definition New (db : store.Store V) (udb : store.Store RegisteredUser) : Session :=
  {| db := db; udb := udb; authenticated := false; activeUser := None |}.

(** Modelled from the spec: [Set] of the missing security layer delegates
    to the data store. *)
Definition Set_ (key : string) (data : any V) (expireIn : Duration)
    (now : Time) (s : Session) : Session :=
  {| db := store.Set_ NeverExpire key data expireIn now (db s);
     udb := udb s;
     authenticated := authenticated s;
     activeUser := activeUser s |}.

(** Modelled from the spec: [Get] of the missing security layer delegates
    to the data store. *)
Definition Get (key : string) (now : Time) (s : Session) : any V * bool :=
  store.Get NeverExpire key now (db s).

(** Modelled from the spec: [Authenticate] of the missing security layer;
    on a registered user whose password verifies it sets the flag, records
    the identity and returns true; otherwise it leaves the session as it
    is and returns false. *)
Definition Authenticate (username password : string) (now : Time) (s : Session)
    : bool * Session :=
  match store.Get NeverExpire username now (udb s) with
  | (Some user, true) =>
      if (Password user =? password)%string
      then (true, {| db := db s; udb := udb s; authenticated := true;
                     activeUser := Some user |})
      else (false, s)
  | _ => (false, s)
  end.

(** A session under a clock is a [SecureDB]: the state is the session and
    the reading of the clock, and every call reads that instant. *)
Definition session_SecureDB : rql.SecureDB V (Session * Time) := {|
  rql.Set_ := fun key data expireIn '(s, now) => (Set_ key data expireIn now s, now);
  rql.Get := fun key '(s, now) => (Get key now s, (s, now));
  rql.Authenticate := fun u p '(s, now) =>
    let '(ok, s) := Authenticate u p now s in (ok, (s, now));
|}.

End Session.

Arguments Session V : clear implicits.

End security.

(* ===================================================================== *)
(** ** A server at work *)
(* ===================================================================== *)

Module sample.
Import GoTime rql.

(** A value of the sentinel, for the concrete runs below. *)
Definition NeverExpire : Z := -1.

(** Noon of 2020-09-13, in nanoseconds since the epoch. *)
Definition t0 : Time := 1600000000 * Second.

(** The two stores as [New] of src/DB/db.go builds them: both never
    expire by default, and the user store holds the administrator. *)
Definition storage : store.Store string := store.New (V := string) NeverExpire.

Definition usersDB : store.Store security.RegisteredUser :=
  store.Set_ NeverExpire "admin"
    (Some (security.NewRegisteredUser "admin" "secret" security.AdminAccess))
    NeverExpire t0 (store.New NeverExpire).

Definition session : security.Session string := security.New storage usersDB.

#[export] Instance sample_SecureDB : rql.SecureDB string (security.Session string * Time) :=
  security.session_SecureDB NeverExpire.

(** A driver on the specified parser, over the recording database. *)
Definition operate (src : string)
    (d : security.Session string * Time * list (rql.Call string)) (w : rql.Writer) :=
  rql.Operate (V := string) rql_parser.Parse src d w.

Definition quote : string := String rql_parser.quote_char EmptyString.

End sample.

(* ===================================================================== *)
(** ** Machine integers *)
(* ===================================================================== *)

Lemma wrap_uint_small (z : Z) : 0 <= z < 2 ^ 64 -> GoInt.wrap_uint z = z.
Proof. intros Hz. unfold GoInt.wrap_uint. apply Z.mod_small. exact Hz. Qed.

Lemma wrap_int64_small (z : Z) :
  - 2 ^ 63 <= z < 2 ^ 63 -> GoInt.wrap_int64 z = z.
Proof.
  intros Hz. unfold GoInt.wrap_int64.
  rewrite Z.mod_small by lia. lia.
Qed.

(* ===================================================================== *)
(** ** The expiry of an item *)
(* ===================================================================== *)

Section ItemFacts.
Import GoTime db.
Variable NeverExpire : Z.
Context {V : Type}.

Lemma newItem_data (x : any V) (expireIn : Duration) (now : Time) :
  data (newItem NeverExpire x expireIn now) = x.
Proof. reflexivity. Qed.

Lemma newItem_NeverExpire (x : any V) (now : Time) :
  expireAt (newItem NeverExpire x NeverExpire now) = NeverExpire.
Proof. unfold newItem. cbn. rewrite Z.eqb_refl. reflexivity. Qed.

(** The expiry instant of an item with a time to live is the instant of the
    call plus that duration, in nanoseconds, as long as that fits an
    [int64]. *)
Lemma newItem_expireAt (x : any V) (expireIn : Duration) (now : Time) :
  expireIn <> NeverExpire ->
  - 2 ^ 63 <= now + expireIn < 2 ^ 63 ->
  expireAt (newItem NeverExpire x expireIn now) = now + expireIn.
Proof.
  intros Hne Hfit. unfold newItem. cbn.
  destruct (Z.eqb_spec expireIn NeverExpire) as [Heq | _]; [contradiction |].
  cbn. unfold UnixNano, Add. apply wrap_int64_small. exact Hfit.
Qed.

(** [isExpired] is true exactly when the expiry is not the sentinel and is
    less than the clock in whole seconds. *)
Lemma isExpired_true (item : Item V) (now : Time) :
  isExpired NeverExpire item now = true <->
  expireAt item <> NeverExpire /\ expireAt item < now / 10 ^ 9.
Proof.
  unfold isExpired, Unix.
  destruct (Z.eqb_spec (expireAt item) NeverExpire) as [Heq | Hne].
  - split; [discriminate | intros [Hne _]; contradiction].
  - rewrite Z.ltb_lt. tauto.
Qed.

(** An expiry in nanoseconds is compared with a clock in seconds: an item
    set after the epoch is live as long as the clock, in seconds, has not
    passed the number of nanoseconds of its expiry. *)
Lemma isExpired_units (x : any V) (expireIn : Duration) (now0 now1 : Time) :
  0 <= now0 -> 0 <= expireIn -> now0 + expireIn < 2 ^ 63 ->
  now1 <= (now0 + expireIn) * 10 ^ 9 ->
  isExpired NeverExpire (newItem NeverExpire x expireIn now0) now1 = false.
Proof.
  intros H0 Ht Hfit Hnow1.
  destruct (isExpired NeverExpire (newItem NeverExpire x expireIn now0) now1)
    eqn:E; [| reflexivity].
  apply isExpired_true in E. destruct E as [Hne Hlt]. exfalso.
  destruct (Z.eq_dec expireIn NeverExpire) as [-> | Hfin].
  - apply Hne. apply newItem_NeverExpire.
  - rewrite newItem_expireAt in Hlt by lia.
    assert (now1 / 10 ^ 9 <= now0 + expireIn).
    { apply Z.div_le_upper_bound; lia. }
    lia.
Qed.

(** In particular the item is live at twice its time to live. *)
Lemma isExpired_twice_ttl (x : any V) (expireIn : Duration) (now0 : Time) :
  0 <= now0 -> 0 <= expireIn -> now0 + 2 * expireIn < 2 ^ 63 ->
  isExpired NeverExpire (newItem NeverExpire x expireIn now0)
    (now0 + 2 * expireIn) = false.
Proof.
  intros H0 Ht Hfit. apply isExpired_units; lia.
Qed.

(** What [Get] finds right after a [Set] of the same key. *)
Lemma Get_Set_eq (key : string) (x : any V) (expireIn : Duration)
    (now0 now1 : Time) (s : store.Store V) :
  store.Get NeverExpire key now1 (store.Set_ NeverExpire key x expireIn now0 s) =
  if isExpired NeverExpire (newItem NeverExpire x expireIn now0) now1
  then (nil_any, false) else (x, true).
Proof.
  unfold store.Get, store.Set_. cbn. rewrite lookup_insert_eq. reflexivity.
Qed.

(** C9: an item created with the never-expire sentinel as its time to live
    is not reported expired at any instant, and a get of its key, with no
    overwrite or delete in between, finds it at any instant. *)
Theorem C9_never_expire (key : string) (x : any V) (now0 now1 : Time)
    (s : store.Store V) :
  isExpired NeverExpire (newItem NeverExpire x NeverExpire now0) now1 = false /\
  store.Get NeverExpire key now1
    (store.Set_ NeverExpire key x NeverExpire now0 s) = (x, true).
Proof.
  assert (E : isExpired NeverExpire (newItem NeverExpire x NeverExpire now0) now1
              = false).
  { unfold isExpired. rewrite newItem_NeverExpire, Z.eqb_refl. reflexivity. }
  split; [exact E |]. rewrite Get_Set_eq, E. reflexivity.
Qed.

(** C2: an item stored at the instant [sample.t0] with a time to live of
    one second is found half a second after the set, and it is still found
    two seconds after the set, where [isExpired] returns false: the
    expiry, in nanoseconds, is compared with the clock in seconds. *)
Theorem C2_found_after_twice_ttl (key : string) (x : any V) (s : store.Store V) :
  store.Get NeverExpire key (sample.t0 + Second / 2)
    (store.Set_ NeverExpire key x Second sample.t0 s) = (x, true) /\
  isExpired NeverExpire (newItem NeverExpire x Second sample.t0)
    (sample.t0 + 2 * Second) = false /\
  store.Get NeverExpire key (sample.t0 + 2 * Second)
    (store.Set_ NeverExpire key x Second sample.t0 s) = (x, true).
Proof.
  assert (E2 : isExpired NeverExpire (newItem NeverExpire x Second sample.t0)
                 (sample.t0 + 2 * Second) = false).
  { apply isExpired_twice_ttl; vm_compute; try discriminate; reflexivity. }
  assert (E1 : isExpired NeverExpire (newItem NeverExpire x Second sample.t0)
                 (sample.t0 + Second / 2) = false).
  { apply isExpired_units; vm_compute; try discriminate; reflexivity. }
  rewrite !Get_Set_eq, E1, E2. auto.
Qed.

End ItemFacts.

(* ===================================================================== *)
(** ** The driver *)
(* ===================================================================== *)

(** Below 2^63 / 1000 the product does not wrap, and the duration is the
    argument in microseconds. *)
Lemma convertToDuration_microseconds (t : Z) :
  0 <= t < 2 ^ 63 / 1000 ->
  rql.convertToDuration t = t * GoTime.Microsecond.
Proof.
  intros Ht. unfold rql.convertToDuration, GoInt.int64_of_uint.
  assert (Hb : 2 ^ 63 / 1000 * 1000 <= 2 ^ 63) by (vm_compute; discriminate).
  assert (Hc : (2 : Z) ^ 63 < 2 ^ 64) by (vm_compute; reflexivity).
  rewrite wrap_uint_small by lia.
  rewrite wrap_int64_small by lia.
  unfold GoTime.Microsecond, GoTime.Nanosecond. lia.
Qed.

Lemma convertToDuration_not_milliseconds (t : Z) :
  0 < t < 2 ^ 63 / 1000 ->
  rql.convertToDuration t <> t * GoTime.Millisecond.
Proof.
  intros Ht. rewrite convertToDuration_microseconds by lia.
  unfold GoTime.Millisecond, GoTime.Microsecond, GoTime.Nanosecond. lia.
Qed.

Section DriverFacts.
Import GoTime rql.
Context {V S : Type} `{!GoValue V} `{!SecureDB V S}.

Lemma length_Write (bytes : string) (w : Writer) :
  length (Write bytes w) = (length w + 1)%nat.
Proof. unfold Write. rewrite length_app. reflexivity. Qed.

(** One turn of the loop of [get] adds the slot of its lookup. *)
Lemma get_step_slot (acc : list (any V)) (d : S) (k : string) :
  get_step (acc, d) k = (acc ++ [slot_of (Get k d)], snd (Get k d)).
Proof.
  unfold get_step, slot_of.
  destruct (Get k d) as [[v ok] d1]. destruct ok; reflexivity.
Qed.

Lemma get_loop_acc (ks : list string) (acc : list (any V)) (d : S) :
  fold_left get_step ks (acc, d) =
  (acc ++ fst (get_response ks d), snd (get_response ks d)).
Proof.
  unfold get_response. revert acc d.
  induction ks as [| k ks IH]; intros acc d; cbn [fold_left].
  - cbn. rewrite app_nil_r. reflexivity.
  - rewrite !get_step_slot. rewrite (IH (acc ++ _)), (IH ([] ++ _)).
    cbn. rewrite <- app_assoc. reflexivity.
Qed.

Lemma get_response_nil (d : S) : get_response [] d = ([], d).
Proof. reflexivity. Qed.

Lemma get_response_cons (k : string) (ks : list string) (d : S) :
  get_response (k :: ks) d =
  (slot_of (Get k d) :: fst (get_response ks (snd (Get k d))),
   snd (get_response ks (snd (Get k d)))).
Proof.
  unfold get_response at 1. cbn [fold_left].
  rewrite get_step_slot, get_loop_acc. reflexivity.
Qed.

Lemma get_response_length (ks : list string) (d : S) :
  length (fst (get_response ks d)) = length ks.
Proof.
  revert d. induction ks as [| k ks IH]; intros d.
  - reflexivity.
  - rewrite get_response_cons. cbn. rewrite IH. reflexivity.
Qed.


Lemma get_unfold (g : GetStatement) (d : S) :
  get g d = (stringify (fst (get_response (keys g) d)),
             snd (get_response (keys g) d)).
Proof. unfold get. destruct (get_response (keys g) d). reflexivity. Qed.


(** *** Statements and response lines *)

Lemma exec_has_no_case (stmt : Statement) (d : S) (w : Writer) :
  has_case stmt = false -> exec (d, w) stmt = (d, w).
Proof. destruct stmt; cbn; intros Hc; try discriminate. reflexivity. Qed.

Lemma exec_has_case (stmt : Statement) (d : S) (w : Writer) :
  has_case stmt = true ->
  exists msg : string, snd (exec (d, w) stmt) = w ++ [msg +:+ newline].
Proof.
  destruct stmt as [s | g | del | a]; cbn; intros Hc; try discriminate.
  - exists "Success"%string. reflexivity.
  - destruct (get g d) as [msg d']. exists msg. reflexivity.
  - destruct (auth a d) as [msg d']. exists msg. reflexivity.
Qed.

Lemma exec_length (stmt : Statement) (st : S * Writer) :
  length (snd (exec st stmt)) =
  (length (snd st) + length (List.filter has_case [stmt]))%nat.
Proof.
  destruct st as [d w]. destruct (has_case stmt) eqn:Hc.
  - destruct (exec_has_case stmt d w Hc) as [msg ->].
    cbn [List.filter]. rewrite Hc, length_app. reflexivity.
  - rewrite (exec_has_no_case stmt d w Hc).
    cbn [List.filter]. rewrite Hc. cbn. lia.
Qed.

Lemma exec_all_length (stmts : list Statement) (st : S * Writer) :
  length (snd (fold_left exec stmts st)) =
  (length (snd st) + length (List.filter has_case stmts))%nat.
Proof.
  revert st. induction stmts as [| stmt stmts IH]; intros st; cbn [fold_left].
  - cbn. lia.
  - rewrite IH, exec_length. cbn [List.filter].
    destruct (has_case stmt); cbn [length]; lia.
Qed.

(** C1, as the driver has it: a DEL statement has no case in the switch of
    [Operate]; the driver passes over it, leaving the database and the
    output as they are. A SET, GET or AUTH statement writes one line. The
    lines written for a request are therefore as many as its statements
    other than DEL. *)
Theorem C1_delete_has_no_case (Parse : string -> option Ast * option error)
    (src : string) (ast : Ast) (d : S) (w : Writer) :
  Parse src = (Some ast, None) ->
  (forall (del : DeleteStatement) (d0 : S) (w0 : Writer),
     exec (d0, w0) (StmtDelete del) = (d0, w0)) /\
  (forall (stmt : Statement) (d0 : S) (w0 : Writer),
     Typ stmt <> DeleteType ->
     exists msg : string, snd (exec (d0, w0) stmt) = w0 ++ [msg +:+ newline]) /\
  length (snd (Operate Parse src d w)) =
    (length w + length (List.filter has_case (Statements ast)))%nat.
Proof.
  intros HP. split; [reflexivity |]. split.
  - intros stmt d0 w0 Hty. apply exec_has_case.
    destruct stmt; cbn in *; congruence.
  - unfold Operate. rewrite HP. apply exec_all_length.
Qed.

(** *** Parse errors *)

Lemma Operate_parse_error (Parse : string -> option Ast * option error)
    (src : string) (ast : option Ast) (err : error)
    (d : S) (w : Writer) :
  Parse src = (ast, Some err) ->
  Operate Parse src d w = (d, w ++ ["ERROR: " +:+ Error err +:+ newline]).
Proof. intros HP. unfold Operate. rewrite HP. destruct ast; reflexivity. Qed.

(** *** The two versions of [get] *)

Lemma get_step_found (acc : list (any V)) (d : S) (k : string) :
  snd (fst (Get k d)) = true ->
  get_step (acc, d) k =
  @rql_v0.get_step V S (rql_v0.DB_of_SecureDB V S) (acc, d) k.
Proof.
  unfold get_step, rql_v0.get_step. cbn.
  destruct (Get k d) as [[v ok] d1]. cbn. intros ->. reflexivity.
Qed.

Lemma get_loop_all_found (ks : list string) (acc : list (any V)) (d : S) :
  all_found ks d = true ->
  fold_left get_step ks (acc, d) =
  fold_left (@rql_v0.get_step V S (rql_v0.DB_of_SecureDB V S)) ks (acc, d).
Proof.
  revert acc d. induction ks as [| k ks IH]; intros acc d Hall; cbn [fold_left].
  - reflexivity.
  - cbn [all_found] in Hall.
    rewrite <- get_step_found.
    + rewrite get_step_slot. apply IH.
      destruct (Get k d) as [[v ok] d1]. cbn.
      apply andb_true_iff in Hall. tauto.
    + destruct (Get k d) as [[v ok] d1]. cbn.
      apply andb_true_iff in Hall. tauto.
Qed.

(** C10: on a GET statement whose keys are all found, looked up in request
    order, [get] of the current driver and [get] of the earlier driver
    return the same string (and leave the same database). *)
Theorem C10_get_versions_agree (g : GetStatement) (d : S) :
  all_found (keys g) d = true ->
  get g d = @rql_v0.get V S _ (rql_v0.DB_of_SecureDB V S) g d.
Proof.
  intros Hall. unfold get, rql_v0.get, get_response, rql_v0.get_response.
  rewrite (get_loop_all_found _ _ _ Hall). reflexivity.
Qed.

(** *** What the driver asks of the database *)

(** C5: when [Parse] returns an error for the source, [Operate] writes the
    one line [ERROR: <message>], ended by a newline, and nothing else; no
    statement runs: the database is as before and no call was made on it. *)
Theorem C5_parse_error_one_line (Parse : string -> option Ast * option error)
    (src : string) (ast : option Ast) (err : error)
    (d : S) (log : list (Call V)) (w : Writer) :
  Parse src = (ast, Some err) ->
  Operate (V := V) Parse src (d, log) w =
  ((d, log), w ++ ["ERROR: " +:+ Error err +:+ newline]).
Proof.
  intros HP. unfold Operate. rewrite HP. destruct ast; reflexivity.
Qed.

(** C6: for an AUTH statement the driver makes one call on the database,
    [Authenticate] with the user name and the password of the statement,
    and writes one line: [Successfully authenticated] if the call returns
    true, [Invalid Credentials] if it returns false. *)
Theorem C6_auth_one_line (a : AuthStatement) (d : S) (log : list (Call V))
    (w : Writer) :
  exec (V := V) ((d, log), w) (StmtAuth a) =
  ((snd (Authenticate (username a) (password a) d),
    log ++ [CallAuthenticate (username a) (password a)]),
   w ++ [(if fst (Authenticate (username a) (password a) d)
          then "Successfully authenticated"
          else "Invalid Credentials") +:+ newline]).
Proof.
  unfold exec, auth. cbn.
  destruct (Authenticate (username a) (password a) d) as [ok d'].
  destruct ok; reflexivity.
Qed.

(** C3: for the SET statement with the expiry 234 the driver passes to
    [Set] of the database the duration 234000 ns, which is 234
    microseconds, and not 234 milliseconds. *)
Theorem C3_set_passes_microseconds (k v : string) (d : S) (log : list (Call V))
    (w : Writer) :
  exec (V := V) ((d, log), w) (StmtSet {| key := k; val := v; exp := 234 |}) =
  ((Set_ k (Some (boxString v)) (234 * Microsecond) d,
    log ++ [CallSet k (Some (boxString v)) (234 * Microsecond)]),
   w ++ ["Success" +:+ newline]) /\
  convertToDuration 234 = 234 * Microsecond /\
  convertToDuration 234 <> 234 * Millisecond.
Proof.
  split; [reflexivity |]. split; [reflexivity |].
  vm_compute. discriminate.
Qed.

End DriverFacts.

(* ===================================================================== *)
(** ** The parser *)
(* ===================================================================== *)

Section ParserFacts.
Import rql rql_parser.

(** White space alone lexes to the end-of-input token. *)
Lemma lex_from_blank (cs : list ascii) (p : nat) :
  forallb is_space cs = true ->
  lex_from cs p Idle = Ok [eof_token (p + length cs)].
Proof.
  revert p. induction cs as [| c cs IH]; intros p Hb; cbn [lex_from length].
  - rewrite Nat.add_0_r. reflexivity.
  - cbn [forallb] in Hb. apply andb_true_iff in Hb. destruct Hb as [Hc Hcs].
    rewrite Hc, (IH _ Hcs). f_equal. f_equal. f_equal. lia.
Qed.

Lemma Lex_blank (src : string) :
  forallb is_space (list_ascii_of_string src) = true ->
  Lex src = Ok [eof_token (length (list_ascii_of_string src))].
Proof. intros Hb. unfold Lex. rewrite (lex_from_blank _ _ Hb). reflexivity. Qed.

Lemma Parse_no_tokens (src : string) (p : nat) :
  Lex src = Ok [eof_token p] ->
  Parse src = (Some {| Statements := [] |}, None).
Proof. intros HL. unfold Parse. rewrite HL. reflexivity. Qed.

(** C7: the source [SET data "Hello World" 234; SET data1 3454 565;]
    parses to two SET statements in source order: key [data], value
    [Hello World], expiry 234; then key [data1], the bare token [3454] as
    the string value, expiry 565. *)
Theorem C7_parse_two_sets :
  Parse ("SET data " +:+ sample.quote +:+ "Hello World" +:+ sample.quote +:+
         " 234; SET data1 3454 565;") =
  (Some {| Statements :=
             [StmtSet {| key := "data"; val := "Hello World"; exp := 234 |};
              StmtSet {| key := "data1"; val := "3454"; exp := 565 |}] |},
   None).
Proof. vm_compute. reflexivity. Qed.

(** C8: when the tokens of the source are the end-of-input token alone,
    [Parse] returns the AST with no statement and no error, and [Operate]
    writes nothing (and leaves the database as it is). *)
Theorem C8_empty_request {V S : Type} `{!GoValue V} `{!SecureDB V S}
    (src : string) (p : nat) (d : S) (w : Writer) :
  Lex src = Ok [eof_token p] ->
  Parse src = (Some {| Statements := [] |}, None) /\
  Operate (V := V) Parse src d w = (d, w).
Proof.
  intros HL. pose proof (Parse_no_tokens src p HL) as HP.
  split; [exact HP |]. unfold Operate. rewrite HP. reflexivity.
Qed.

End ParserFacts.

(* ===================================================================== *)
(** ** Runs of the sample server *)
(* ===================================================================== *)

Import rql sample.

(** C1, as stated, fails: the request [SET a b; DEL a;] parses to a SET and
    a DEL statement; the driver writes one line for the two statements,
    makes the one call [Set] on the database, and the key [a] is still
    found afterwards. *)
Lemma C1_delete_leaves_key :
  rql_parser.Parse "SET a b; DEL a;" =
    (Some {| rql.Statements :=
               [rql.StmtSet {| rql.key := "a"; rql.val := "b"; rql.exp := 0 |};
                rql.StmtDelete {| rql.del_keys := ["a"] |}] |}, None) /\
  snd (sample.operate "SET a b; DEL a;" (sample.session, sample.t0, []) []) =
    ["Success" +:+ rql.newline] /\
  snd (fst (sample.operate "SET a b; DEL a;" (sample.session, sample.t0, []) [])) =
    [rql.CallSet "a" (Some "b") 0] /\
  fst (rql.Get (V := string) "a"
         (fst (fst (sample.operate "SET a b; DEL a;"
                      (sample.session, sample.t0, []) [])))) =
    (Some "b", true).
Proof. vm_compute. repeat split; reflexivity. Qed.

Lemma C1_delete_has_no_case_witness :
  rql_parser.Parse "SET a b; DEL a;" =
    (Some {| rql.Statements :=
               [rql.StmtSet {| rql.key := "a"; rql.val := "b"; rql.exp := 0 |};
                rql.StmtDelete {| rql.del_keys := ["a"] |}] |}, None) /\
  length (snd (sample.operate "SET a b; DEL a;" (sample.session, sample.t0, []) [])) =
    1%nat.
Proof.
  split; [vm_compute; reflexivity |].
  exact (proj2 (proj2
    (C1_delete_has_no_case (V := string) rql_parser.Parse "SET a b; DEL a;"
       {| rql.Statements :=
            [rql.StmtSet {| rql.key := "a"; rql.val := "b"; rql.exp := 0 |};
             rql.StmtDelete {| rql.del_keys := ["a"] |}] |}
       (sample.session, sample.t0, []) [] eq_refl))).
Defined.

Lemma C5_parse_error_one_line_witness :
  rql_parser.Parse "GET;" =
    (None, Some (rql.ParseError "unexpected token 'GET', expected at least one key")) /\
  sample.operate "GET;" (sample.session, sample.t0, []) [] =
    ((sample.session, sample.t0, []),
     ["ERROR: unexpected token 'GET', expected at least one key" +:+ rql.newline]).
Proof.
  split; [vm_compute; reflexivity |].
  exact (C5_parse_error_one_line (V := string) rql_parser.Parse "GET;" None
           (rql.ParseError "unexpected token 'GET', expected at least one key")
           (sample.session, sample.t0) [] [] eq_refl).
Defined.

Lemma C8_empty_request_witness :
  rql_parser.Lex "  " = rql_parser.Ok [rql_parser.eof_token 2] /\
  rql_parser.Parse "  " = (Some {| rql.Statements := [] |}, None) /\
  sample.operate "  " (sample.session, sample.t0, []) [] =
    ((sample.session, sample.t0, []), []).
Proof.
  split; [vm_compute; reflexivity |].
  exact (C8_empty_request (V := string) "  " 2
           (sample.session, sample.t0, []) [] eq_refl).
Defined.

Lemma C10_get_versions_agree_witness :
  rql.all_found (V := string) ["a"; "b"]
    (security.Set_ sample.NeverExpire "b" (Some "y") 0 sample.t0
       (security.Set_ sample.NeverExpire "a" (Some "x") 0 sample.t0 sample.session),
     sample.t0) = true /\
  rql.get (V := string) {| rql.keys := ["a"; "b"] |}
    (security.Set_ sample.NeverExpire "b" (Some "y") 0 sample.t0
       (security.Set_ sample.NeverExpire "a" (Some "x") 0 sample.t0 sample.session),
     sample.t0) =
  @rql_v0.get string _ _ (rql_v0.DB_of_SecureDB string _) {| rql.keys := ["a"; "b"] |}
    (security.Set_ sample.NeverExpire "b" (Some "y") 0 sample.t0
       (security.Set_ sample.NeverExpire "a" (Some "x") 0 sample.t0 sample.session),
     sample.t0).
Proof.
  split; [vm_compute; reflexivity |].
  exact (C10_get_versions_agree (V := string) {| rql.keys := ["a"; "b"] |}
           (security.Set_ sample.NeverExpire "b" (Some "y") 0 sample.t0
              (security.Set_ sample.NeverExpire "a" (Some "x") 0 sample.t0
                 sample.session),
            sample.t0) eq_refl).
Defined.


(* ===================================================================== *)
(** ** More on the expiry of an item *)
(* ===================================================================== *)

Section ItemLifetime.
Import GoTime db.
Variable NeverExpire : Z.
Context {V : Type}.

(** X1: an item that [isExpired] reports expired is reported expired at every
    later reading of the clock. *)
Theorem isExpired_monotone (item : Item V) (now1 now2 : Time) :
  isExpired NeverExpire item now1 = true ->
  now1 <= now2 ->
  isExpired NeverExpire item now2 = true.
Proof.
  intros He Hle. apply isExpired_true in He. destruct He as [Hne Hlt].
  apply isExpired_true. split; [exact Hne |].
  assert (now1 / 10 ^ 9 <= now2 / 10 ^ 9) by (apply Z.div_le_mono; lia).
  lia.
Qed.

(** X2: the instant from which an item with a time to live is reported
    expired: the first reading of the clock, in nanoseconds, whose number
    of whole seconds is more than the expiry in nanoseconds. *)
Theorem isExpired_instant (x : any V) (expireIn : Duration) (now0 now1 : Time) :
  expireIn <> NeverExpire ->
  - 2 ^ 63 <= now0 + expireIn < 2 ^ 63 ->
  now0 + expireIn <> NeverExpire ->
  isExpired NeverExpire (newItem NeverExpire x expireIn now0) now1 = true <->
  (now0 + expireIn + 1) * 10 ^ 9 <= now1.
Proof.
  intros Hfin Hfit Hne.
  rewrite isExpired_true, newItem_expireAt by assumption.
  assert (Hpos : 0 < 10 ^ 9) by reflexivity.
  split.
  - intros [_ Hlt].
    pose proof (Z.mul_div_le now1 (10 ^ 9) Hpos) as Hq.
    assert (now0 + expireIn + 1 <= now1 / 10 ^ 9) by lia. nia.
  - intros Hle. split; [exact Hne |].
    assert (now0 + expireIn + 1 <= now1 / 10 ^ 9).
    { apply Z.div_le_lower_bound; lia. }
    lia.
Qed.

(** X3: a time to live so long that the expiry instant does not fit an [int64]
    wraps to a negative expiry: the item is reported expired at every
    reading of the clock after the epoch. *)
Theorem newItem_overflow_expired (x : any V) (expireIn : Duration)
    (now0 now1 : Time) :
  expireIn <> NeverExpire ->
  2 ^ 63 <= now0 + expireIn < 2 ^ 64 ->
  now0 + expireIn - 2 ^ 64 <> NeverExpire ->
  0 <= now1 ->
  expireAt (newItem NeverExpire x expireIn now0) = now0 + expireIn - 2 ^ 64 /\
  isExpired NeverExpire (newItem NeverExpire x expireIn now0) now1 = true.
Proof.
  intros Hfin Hover Hne Hnow1.
  assert (He : expireAt (newItem NeverExpire x expireIn now0)
               = now0 + expireIn - 2 ^ 64).
  { unfold newItem. cbn.
    destruct (Z.eqb_spec expireIn NeverExpire) as [Heq | _]; [contradiction |].
    cbn. unfold UnixNano, Add, GoInt.wrap_int64.
    replace (now0 + expireIn + 2 ^ 63)
      with (now0 + expireIn - 2 ^ 63 + 1 * 2 ^ 64) by lia.
    rewrite Z.mod_add by lia. rewrite Z.mod_small by lia. lia. }
  split; [exact He |].
  apply isExpired_true. rewrite He. split; [exact Hne |].
  assert (0 <= now1 / 10 ^ 9) by (apply Z.div_pos; lia).
  lia.
Qed.

(** X4: a SET statement without expiry carries [exp = 0]: the driver turns it
    into the duration 0, and the item that [newItem] builds for that
    duration expires at the instant of the call, unless 0 is the sentinel
    itself. *)
Theorem newItem_without_expiry (s : rql.SetStatement) (x : any V) (now0 : Time) :
  rql.exp s = 0 ->
  - 2 ^ 63 <= now0 < 2 ^ 63 ->
  rql.convertToDuration (rql.exp s) = 0 /\
  expireAt (newItem NeverExpire x (rql.convertToDuration (rql.exp s)) now0) =
    if NeverExpire =? 0 then NeverExpire else now0.
Proof.
  intros Hexp Hfit. rewrite Hexp.
  change (rql.convertToDuration 0) with 0.
  split; [reflexivity |].
  destruct (Z.eqb_spec NeverExpire 0) as [-> | Hne].
  - reflexivity.
  - rewrite newItem_expireAt by lia. lia.
Qed.

End ItemLifetime.

(* ===================================================================== *)
(** ** More on the driver *)
(* ===================================================================== *)

(** X5: whatever the argument, the duration is an [int64] that is congruent to
    a thousand times the argument modulo 2^64. *)
Theorem convertToDuration_int64 (t : Z) :
  - 2 ^ 63 <= rql.convertToDuration t < 2 ^ 63 /\
  (rql.convertToDuration t - t * 1000) mod 2 ^ 64 = 0.
Proof.
  unfold rql.convertToDuration, GoInt.int64_of_uint, GoInt.wrap_int64,
    GoInt.wrap_uint.
  assert (Hm : 0 < 2 ^ 64) by reflexivity.
  assert (H63 : 2 ^ 64 = 2 * 2 ^ 63) by reflexivity.
  pose proof (Z.mod_pos_bound (t * 1000 mod 2 ^ 64 + 2 ^ 63) (2 ^ 64) Hm) as Hb.
  split; [lia |].
  pose proof (Z.div_mod (t * 1000) (2 ^ 64) ltac:(lia)) as E1.
  pose proof (Z.div_mod (t * 1000 mod 2 ^ 64 + 2 ^ 63) (2 ^ 64) ltac:(lia)) as E2.
  replace ((t * 1000 mod 2 ^ 64 + 2 ^ 63) mod 2 ^ 64 - 2 ^ 63 - t * 1000)
    with ((- (t * 1000 / 2 ^ 64)
           - ((t * 1000 mod 2 ^ 64 + 2 ^ 63) / 2 ^ 64)) * 2 ^ 64) by lia.
  apply Z.mod_mul. lia.
Qed.

(** X6: an expiry whose thousandfold is between 2^63 and 2^64 becomes a
    negative duration. *)
Theorem convertToDuration_wraps_negative (t : Z) :
  2 ^ 63 <= t * 1000 < 2 ^ 64 ->
  rql.convertToDuration t = t * 1000 - 2 ^ 64 /\
  rql.convertToDuration t < 0.
Proof.
  intros Ht.
  assert (E : rql.convertToDuration t = t * 1000 - 2 ^ 64).
  { unfold rql.convertToDuration, GoInt.int64_of_uint.
    rewrite wrap_uint_small by lia.
    unfold GoInt.wrap_int64.
    replace (t * 1000 + 2 ^ 63) with (t * 1000 - 2 ^ 63 + 1 * 2 ^ 64) by lia.
    rewrite Z.mod_add by lia. rewrite Z.mod_small by lia. lia. }
  split; [exact E | lia].
Qed.

Section DriverTrace.
Import GoTime rql.
Context {V S : Type} `{!GoValue V} `{!SecureDB V S}.

(** *** The calls that reach the database *)

Lemma get_step_recording (acc : list (any V)) (d : S) (log : list (Call V))
    (k : string) :
  get_step (acc, (d, log)) k =
  (fst (get_step (acc, d) k), (snd (get_step (acc, d) k), log ++ [CallGet k])).
Proof.
  unfold get_step. cbn.
  destruct (Get k d) as [[v ok] d1]. destruct ok; reflexivity.
Qed.

Lemma get_loop_recording (ks : list string) (acc : list (any V)) (d : S)
    (log : list (Call V)) :
  fold_left get_step ks (acc, (d, log)) =
  (fst (fold_left get_step ks (acc, d)),
   (snd (fold_left get_step ks (acc, d)), log ++ map CallGet ks)).
Proof.
  revert acc d log. induction ks as [| k ks IH]; intros acc d log;
    cbn [fold_left map].
  - rewrite app_nil_r. reflexivity.
  - rewrite get_step_recording.
    destruct (get_step (acc, d) k) as [acc1 d1]. cbn [fst snd].
    rewrite IH, <- app_assoc. reflexivity.
Qed.

Lemma get_recording (g : GetStatement) (d : S) (log : list (Call V)) :
  get (V := V) g (d, log) =
  (fst (get g d), (snd (get g d), log ++ map CallGet (keys g))).
Proof.
  unfold get, get_response. rewrite get_loop_recording.
  destruct (fold_left get_step (keys g) ([], d)) as [res d1]. reflexivity.
Qed.

Lemma exec_recording (stmt : Statement) (d : S) (log : list (Call V))
    (w : Writer) :
  exec (V := V) ((d, log), w) stmt =
  ((fst (exec (d, w) stmt), log ++ calls_of stmt), snd (exec (d, w) stmt)).
Proof.
  destruct stmt as [s | g | del | a]; cbn [exec calls_of].
  - reflexivity.
  - rewrite get_recording. destruct (get g d) as [msg d1]. reflexivity.
  - rewrite app_nil_r. reflexivity.
  - unfold auth. cbn.
    destruct (Authenticate (username a) (password a) d) as [ok d1].
    destruct ok; reflexivity.
Qed.

Lemma exec_all_recording (stmts : list Statement) (d : S) (log : list (Call V))
    (w : Writer) :
  fold_left exec stmts ((d, log), w) =
  ((fst (fold_left exec stmts (d, w)), log ++ flat_map calls_of stmts),
   snd (fold_left exec stmts (d, w))).
Proof.
  revert d log w. induction stmts as [| stmt stmts IH]; intros d log w;
    cbn [fold_left flat_map].
  - rewrite app_nil_r. reflexivity.
  - rewrite exec_recording.
    destruct (exec (d, w) stmt) as [d1 w1]. cbn [fst snd].
    rewrite IH, <- app_assoc. reflexivity.
Qed.

(** X7: for a GET statement the driver makes one [Get] call per key, in request
    order, whether the key is found or not, and no other call; it writes
    the one line that [get] renders. *)
Theorem get_one_lookup_per_key (g : GetStatement) (d : S) (log : list (Call V))
    (w : Writer) :
  exec (V := V) ((d, log), w) (StmtGet g) =
  ((snd (get g d), log ++ map CallGet (keys g)),
   w ++ [fst (get g d) +:+ newline]).
Proof.
  rewrite exec_recording. cbn [exec calls_of].
  destruct (get g d) as [msg d1]. reflexivity.
Qed.

(** X8: the calls that a request makes on the database are read off its
    statements alone, in source order: they are the calls of each statement
    in turn, whatever the database answers. *)
Theorem Operate_calls (Parse : string -> option Ast * option error)
    (src : string) (ast : Ast) (d : S) (log : list (Call V)) (w : Writer) :
  Parse src = (Some ast, None) ->
  Operate (V := V) Parse src (d, log) w =
  ((fst (Operate Parse src d w), log ++ flat_map calls_of (Statements ast)),
   snd (Operate Parse src d w)).
Proof.
  intros HP. unfold Operate. rewrite HP. apply exec_all_recording.
Qed.

End DriverTrace.

Section DriverOutput.
Import GoTime rql.
Context {V S : Type} `{!GoValue V} `{!SecureDB V S}.

(** *** What is written *)

Lemma exec_frame (stmt : Statement) (d : S) (w : Writer) :
  exec (d, w) stmt =
  (fst (exec (d, []) stmt), w ++ snd (exec (d, []) stmt)).
Proof.
  destruct stmt as [s | g | del | a]; cbn [exec].
  - reflexivity.
  - destruct (get g d) as [msg d1]. reflexivity.
  - rewrite app_nil_r. reflexivity.
  - destruct (auth a d) as [msg d1]. reflexivity.
Qed.

Lemma exec_all_frame (stmts : list Statement) (d : S) (w : Writer) :
  fold_left exec stmts (d, w) =
  (fst (fold_left exec stmts (d, [])), w ++ snd (fold_left exec stmts (d, []))).
Proof.
  revert d w. induction stmts as [| stmt stmts IH]; intros d w;
    cbn [fold_left].
  - rewrite app_nil_r. reflexivity.
  - rewrite (exec_frame stmt d w).
    destruct (exec (d, []) stmt) as [d1 l1]. cbn [fst snd].
    unfold Writer in *. rewrite (IH d1 (w ++ l1)), (IH d1 l1). cbn [fst snd].
    rewrite app_assoc. reflexivity.
Qed.

Lemma exec_all_lines (stmts : list Statement) (d : S) (w : Writer) :
  Forall (fun l => exists msg : string, l = msg +:+ newline) w ->
  Forall (fun l => exists msg : string, l = msg +:+ newline)
    (snd (fold_left exec stmts (d, w))).
Proof.
  revert d w. induction stmts as [| stmt stmts IH]; intros d w Hw;
    cbn [fold_left].
  - exact Hw.
  - destruct (exec (d, w) stmt) as [d1 w1] eqn:E. apply IH.
    destruct (has_case stmt) eqn:Hc.
    + destruct (exec_has_case stmt d w Hc) as [msg Hmsg].
      rewrite E in Hmsg. cbn in Hmsg. subst w1.
      apply Forall_app. split; [exact Hw |].
      constructor; [exists msg; reflexivity | constructor].
    + rewrite (exec_has_no_case stmt d w Hc) in E.
      injection E as <- <-. exact Hw.
Qed.

(** X9: [Operate] only appends to the writer: what a request writes, and the
    database it leaves, do not depend on what was written before, and
    every string that it writes ends with a newline. This holds for every
    parser and every source, with or without a parse error. *)
Theorem Operate_appends_lines (Parse : string -> option Ast * option error)
    (src : string) (d : S) (w : Writer) :
  Operate Parse src d w =
    (fst (Operate Parse src d []), w ++ snd (Operate Parse src d [])) /\
  Forall (fun l => exists msg : string, l = msg +:+ newline)
    (snd (Operate Parse src d [])).
Proof.
  unfold Operate. destruct (Parse src) as [[ast |] [err |]]; cbn [fst snd].
  - split; [reflexivity |].
    constructor; [| constructor]. exists ("ERROR: " +:+ Error err). reflexivity.
  - split; [apply exec_all_frame |]. apply exec_all_lines. constructor.
  - split; [reflexivity |].
    constructor; [| constructor]. exists ("ERROR: " +:+ Error err). reflexivity.
  - split; [rewrite app_nil_r; reflexivity | constructor].
Qed.

(** X10: statements sent in one request do what they do when sent in two: if
    the parser gives, for the whole source, the statements of the first
    part followed by those of the second, then one [Operate] on the whole
    is [Operate] on the first part followed by [Operate] on the second. *)
Theorem Operate_split_request (Parse : string -> option Ast * option error)
    (src src1 src2 : string) (ast1 ast2 : Ast) (d : S) (w : Writer) :
  Parse src1 = (Some ast1, None) ->
  Parse src2 = (Some ast2, None) ->
  Parse src = (Some {| Statements := Statements ast1 ++ Statements ast2 |}, None) ->
  Operate Parse src d w =
  Operate Parse src2 (fst (Operate Parse src1 d w)) (snd (Operate Parse src1 d w)).
Proof.
  intros H1 H2 H12. unfold Operate. rewrite H1, H2, H12. cbn [Statements].
  rewrite fold_left_app.
  destruct (fold_left exec (Statements ast1) (d, w)) as [d1 w1]. reflexivity.
Qed.

End DriverOutput.

(* ===================================================================== *)
(** ** What the rendering of a GET does not tell *)
(* ===================================================================== *)

Lemma string_append_assoc (a b c : string) :
  (a +:+ b) +:+ c = a +:+ (b +:+ c).
Proof.
  induction a as [| x a IH]; [reflexivity |].
  change (String x ((a +:+ b) +:+ c) = String x (a +:+ b +:+ c)).
  f_equal. exact IH.
Qed.

Lemma concat_cons_cons (sep x y : string) (l : list string) :
  String.concat sep (x :: y :: l) = x +:+ sep +:+ String.concat sep (y :: l).
Proof. reflexivity. Qed.

Lemma concat_space_merge (pre post : list string) (a b : string) :
  String.concat " " (pre ++ (a +:+ " " +:+ b) :: post) =
  String.concat " " (pre ++ a :: b :: post).
Proof.
  induction pre as [| q qs IH].
  - cbn [app]. destruct post as [| p ps].
    + reflexivity.
    + rewrite !concat_cons_cons, !string_append_assoc. reflexivity.
  - destruct qs as [| q' qs'].
    + cbn [app] in *. rewrite !concat_cons_cons, IH. reflexivity.
    + cbn [app] in *. rewrite !concat_cons_cons, IH. reflexivity.
Qed.

(** X11: with strings as values, a stored value [<nil>] is rendered as a key
    that is not found is: the two responses give the same line. *)
Theorem stringify_nil_marker_ambiguous (pre post : list (any string)) :
  rql.stringify (pre ++ Some "<nil>"%string :: post) =
  rql.stringify (pre ++ nil_any :: post).
Proof. unfold rql.stringify. rewrite !map_app. reflexivity. Qed.

(** X12: with strings as values, one value with a blank in it is rendered as
    two values are: the line does not tell how many slots the response
    has. *)
Theorem stringify_blank_ambiguous (pre post : list (any string)) (a b : string) :
  rql.stringify (pre ++ Some (a +:+ " " +:+ b) :: post) =
  rql.stringify (pre ++ Some a :: Some b :: post).
Proof.
  unfold rql.stringify. rewrite !map_app. cbn [map rql.fmt_any fmtV string_GoValue].
  rewrite concat_space_merge. reflexivity.
Qed.

(* ===================================================================== *)
(** ** The two versions of the driver *)
(* ===================================================================== *)

Section DriverVersions.
Import GoTime rql.
Context {V S : Type} `{!GoValue V} `{!SecureDB V S}.

Lemma get_response_lookups (ks : list string) (d : S) :
  fst (get_response ks d) =
  map (fun r : any V * bool => if snd r then fst r else nil_any) (lookups ks d).
Proof.
  revert d. induction ks as [| k ks IH]; intros d.
  - reflexivity.
  - rewrite get_response_cons. cbn [fst lookups]. unfold slot_of.
    destruct (Get k d) as [[v ok] d1]. cbn [map fst snd].
    rewrite IH. reflexivity.
Qed.

Lemma v0_get_loop (ks : list string) (acc : list (any V)) (d : S) :
  fold_left (@rql_v0.get_step V S (rql_v0.DB_of_SecureDB V S)) ks (acc, d) =
  (acc ++ map fst (List.filter snd (lookups ks d)), snd (get_response ks d)).
Proof.
  revert acc d. induction ks as [| k ks IH]; intros acc d.
  - cbn. rewrite app_nil_r. reflexivity.
  - rewrite get_response_cons. cbn [fold_left lookups snd].
    unfold rql_v0.get_step at 2. cbn [rql_v0.Get rql_v0.DB_of_SecureDB].
    destruct (Get k d) as [[v ok] d1]. cbn [snd].
    destruct ok; rewrite IH; cbn [List.filter snd map fst].
    + rewrite <- app_assoc. reflexivity.
    + reflexivity.
Qed.

Lemma all_found_lookups (ks : list string) (d : S) :
  all_found ks d = forallb snd (lookups ks d).
Proof.
  revert d. induction ks as [| k ks IH]; intros d; cbn [all_found lookups].
  - reflexivity.
  - destruct (Get k d) as [[v ok] d1]. cbn [forallb snd]. rewrite IH. reflexivity.
Qed.

Lemma filter_length_le_bool {A : Type} (f : A -> bool) (l : list A) :
  (length (List.filter f l) <= length l)%nat.
Proof.
  induction l as [| x l IH]; cbn; [lia |]. destruct (f x); cbn; lia.
Qed.

Lemma filter_length_all {A : Type} (f : A -> bool) (l : list A) :
  length (List.filter f l) = length l <-> forallb f l = true.
Proof.
  induction l as [| x l IH]; cbn; [tauto |].
  pose proof (filter_length_le_bool f l) as Hle.
  destruct (f x); cbn.
  - rewrite <- IH. lia.
  - split; [lia | discriminate].
Qed.

(** X13: the two loops of [get] by the outcomes of their lookups: the current
    one keeps one slot per lookup, with the nil marker where the key is
    not found; the earlier one keeps the values of the lookups that are
    found, in order, and nothing for the others. *)
Theorem get_responses_by_lookups (ks : list string) (d : S) :
  fst (get_response ks d) =
    map (fun r : any V * bool => if snd r then fst r else nil_any) (lookups ks d) /\
  fst (@rql_v0.get_response V S (rql_v0.DB_of_SecureDB V S) ks d) =
    map fst (List.filter snd (lookups ks d)).
Proof.
  split; [apply get_response_lookups |].
  unfold rql_v0.get_response. rewrite v0_get_loop. reflexivity.
Qed.

(** X14: whatever is found, the two versions of [get] leave the same
    database. *)
Theorem get_versions_same_database (g : GetStatement) (d : S) :
  snd (@rql_v0.get V S _ (rql_v0.DB_of_SecureDB V S) g d) = snd (get g d).
Proof.
  unfold rql_v0.get, rql_v0.get_response. rewrite v0_get_loop.
  rewrite get_unfold. reflexivity.
Qed.

(** X15: the response of the earlier [get] is never longer than the key list,
    and it has the length of the key list exactly when every key is
    found. *)
Theorem v0_get_length (ks : list string) (d : S) :
  (length (fst (@rql_v0.get_response V S (rql_v0.DB_of_SecureDB V S) ks d))
     <= length ks)%nat /\
  (length (fst (@rql_v0.get_response V S (rql_v0.DB_of_SecureDB V S) ks d))
     = length ks <-> all_found ks d = true).
Proof.
  assert (Hl : length (lookups ks d) = length ks).
  { rewrite <- (get_response_length ks d), get_response_lookups, length_map.
    reflexivity. }
  unfold rql_v0.get_response. rewrite v0_get_loop. cbn [fst app].
  rewrite length_map, all_found_lookups, <- Hl.
  split; [apply filter_length_le_bool | apply filter_length_all].
Qed.

(** X16: when no key of a GET is found, the earlier [get] answers [[]], however
    many keys were asked for. *)
Theorem v0_get_none_found (g : GetStatement) (d : S) :
  forallb (fun r : any V * bool => negb (snd r)) (lookups (keys g) d) = true ->
  fst (@rql_v0.get V S _ (rql_v0.DB_of_SecureDB V S) g d) = "[]"%string.
Proof.
  intros Hnone. unfold rql_v0.get, rql_v0.get_response. rewrite v0_get_loop.
  cbn [fst app].
  assert (E : List.filter snd (lookups (keys g) d) = []).
  { induction (lookups (keys g) d) as [| r l IH]; [reflexivity |].
    cbn [forallb] in Hnone. apply andb_true_iff in Hnone.
    destruct Hnone as [Hr Hl]. cbn [List.filter].
    destruct (snd r); [discriminate | apply IH; exact Hl]. }
  rewrite E. reflexivity.
Qed.

End DriverVersions.

(* ===================================================================== *)
(** ** Further runs *)
(* ===================================================================== *)

Lemma isExpired_monotone_witness :
  db.isExpired (-1) (db.mkItem (V := string) 5 nil_any) (6 * GoTime.Second) = true /\
  6 * GoTime.Second <= 7 * GoTime.Second /\
  db.isExpired (-1) (db.mkItem (V := string) 5 nil_any) (7 * GoTime.Second) = true.
Proof.
  split; [reflexivity |]. split; [vm_compute; discriminate |].
  apply (isExpired_monotone (-1) (db.mkItem 5 nil_any) (6 * GoTime.Second));
    [reflexivity | vm_compute; discriminate].
Defined.

Lemma isExpired_instant_witness :
  GoTime.Second <> -1 /\
  - 2 ^ 63 <= t0 + GoTime.Second < 2 ^ 63 /\
  t0 + GoTime.Second <> -1 /\
  db.isExpired (-1) (db.newItem (-1) (Some "x"%string) GoTime.Second t0)
    ((t0 + GoTime.Second + 1) * 10 ^ 9) = true.
Proof.
  split; [vm_compute; discriminate |].
  split; [vm_compute; split; [discriminate | reflexivity] |].
  split; [vm_compute; discriminate |].
  apply (isExpired_instant (-1) (Some "x"%string) GoTime.Second t0).
  - vm_compute; discriminate.
  - vm_compute; split; [discriminate | reflexivity].
  - vm_compute; discriminate.
  - apply Z.le_refl.
Defined.

Lemma newItem_overflow_expired_witness :
  2 ^ 63 <= t0 + (2 ^ 63 - 1) < 2 ^ 64 /\
  db.isExpired (-1) (db.newItem (-1) (Some "x"%string) (2 ^ 63 - 1) t0) t0 = true.
Proof.
  split; [vm_compute; split; [discriminate | reflexivity] |].
  apply (newItem_overflow_expired (-1) (Some "x"%string) (2 ^ 63 - 1) t0 t0).
  - vm_compute; discriminate.
  - vm_compute; split; [discriminate | reflexivity].
  - vm_compute; discriminate.
  - vm_compute; discriminate.
Defined.

Lemma newItem_without_expiry_witness :
  exp {| key := "a"; val := "b"; exp := 0 |} = 0 /\
  - 2 ^ 63 <= t0 < 2 ^ 63 /\
  db.expireAt
    (db.newItem (-1) (Some "b"%string)
       (convertToDuration (exp {| key := "a"; val := "b"; exp := 0 |})) t0) = t0.
Proof.
  split; [reflexivity |].
  split; [vm_compute; split; [discriminate | reflexivity] |].
  apply (newItem_without_expiry (-1) {| key := "a"; val := "b"; exp := 0 |}
           (Some "b"%string) t0).
  - reflexivity.
  - vm_compute; split; [discriminate | reflexivity].
Defined.

Lemma convertToDuration_wraps_negative_witness :
  2 ^ 63 <= 9223372036854776 * 1000 < 2 ^ 64 /\
  convertToDuration 9223372036854776 = -9223372036854775616.
Proof.
  split; [vm_compute; split; [discriminate | reflexivity] |].
  apply (convertToDuration_wraps_negative 9223372036854776).
  vm_compute; split; [discriminate | reflexivity].
Defined.

Lemma Operate_calls_witness :
  rql_parser.Parse "SET a b 5; GET a c; DEL a; AUTH admin secret" =
    (Some {| Statements :=
               [StmtSet {| key := "a"; val := "b"; exp := 5 |};
                StmtGet {| keys := ["a"; "c"] |};
                StmtDelete {| del_keys := ["a"] |};
                StmtAuth {| username := "admin"; password := "secret" |}] |},
     None) /\
  snd (fst (operate "SET a b 5; GET a c; DEL a; AUTH admin secret"
              (session, t0, []) [])) =
    [CallSet "a" (Some "b"%string) 5000; CallGet "a"; CallGet "c";
     CallAuthenticate "admin" "secret"].
Proof.
  split; [vm_compute; reflexivity |].
  exact (f_equal (fun r => snd (fst r))
    (Operate_calls (V := string) rql_parser.Parse
       "SET a b 5; GET a c; DEL a; AUTH admin secret"
       {| Statements :=
            [StmtSet {| key := "a"; val := "b"; exp := 5 |};
             StmtGet {| keys := ["a"; "c"] |};
             StmtDelete {| del_keys := ["a"] |};
             StmtAuth {| username := "admin"; password := "secret" |}] |}
       (session, t0) [] [] eq_refl)).
Defined.

Lemma Operate_split_request_witness :
  rql_parser.Parse "SET a b;" =
    (Some {| Statements := [StmtSet {| key := "a"; val := "b"; exp := 0 |}] |},
     None) /\
  rql_parser.Parse "GET a;" =
    (Some {| Statements := [StmtGet {| keys := ["a"] |}] |}, None) /\
  rql_parser.Parse "SET a b; GET a;" =
    (Some {| Statements :=
               [StmtSet {| key := "a"; val := "b"; exp := 0 |};
                StmtGet {| keys := ["a"] |}] |}, None) /\
  Operate (V := string) rql_parser.Parse "SET a b; GET a;" (session, t0) [] =
  Operate (V := string) rql_parser.Parse "GET a;"
    (fst (Operate (V := string) rql_parser.Parse "SET a b;" (session, t0) []))
    (snd (Operate (V := string) rql_parser.Parse "SET a b;" (session, t0) [])).
Proof.
  split; [vm_compute; reflexivity |].
  split; [vm_compute; reflexivity |].
  split; [vm_compute; reflexivity |].
  exact (Operate_split_request (V := string) rql_parser.Parse
           "SET a b; GET a;" "SET a b;" "GET a;"
           {| Statements := [StmtSet {| key := "a"; val := "b"; exp := 0 |}] |}
           {| Statements := [StmtGet {| keys := ["a"] |}] |}
           (session, t0) [] eq_refl eq_refl eq_refl).
Defined.

Lemma v0_get_none_found_witness :
  forallb (fun r : any string * bool => negb (snd r))
    (lookups ["a"; "b"] (session, t0)) = true /\
  fst (@rql_v0.get string _ _ (rql_v0.DB_of_SecureDB string _)
         {| keys := ["a"; "b"] |} (session, t0)) = "[]"%string.
Proof.
  split; [vm_compute; reflexivity |].
  exact (v0_get_none_found (V := string) {| keys := ["a"; "b"] |} (session, t0)
           eq_refl).
Defined.

Lemma v0_get_length_witness :
  all_found (V := string) ["a"; "b"]
    (security.Set_ NeverExpire "b" (Some "y"%string) 0 t0
       (security.Set_ NeverExpire "a" (Some "x"%string) 0 t0 session), t0) = true /\
  length (fst (@rql_v0.get_response string _ (rql_v0.DB_of_SecureDB string _)
                 ["a"; "b"]
                 (security.Set_ NeverExpire "b" (Some "y"%string) 0 t0
                    (security.Set_ NeverExpire "a" (Some "x"%string) 0 t0 session),
                  t0))) = 2%nat.
Proof.
  split; [vm_compute; reflexivity |].
  exact (proj2 (proj2 (v0_get_length (V := string) ["a"; "b"]
                         (security.Set_ NeverExpire "b" (Some "y"%string) 0 t0
                            (security.Set_ NeverExpire "a" (Some "x"%string) 0 t0
                               session), t0))) eq_refl).
Defined.
